(** * docs/conf.py of gpio_manager: the Sphinx configuration module

    The repository's only source file is the configuration module that the
    documentation builder evaluates.  It imports [sys] and [os], prepends
    [os.path.abspath('..')] to [sys.path] and binds eleven module-level
    names to literals.

    The module is embedded as a computation in a reader/state monad: the
    reader part is the process environment the module can observe (the
    working directory), the state part is what it can write (the module
    namespace and [sys.path]).  The library calls the module makes
    ([str.split], [posixpath.join], [posixpath.normpath],
    [posixpath.abspath], [list.insert]) are embedded from their Python
    definitions. *)

From Stdlib Require Import Ascii.
From stdpp Require Import gmap strings list fin_maps.

(** ** Python values that occur in the module *)

#[local] Set Warnings "-register-all".

Inductive value : Type :=
  | VStr (s : string)
  | VBool (b : bool)
  | VList (items : list value)
  | VDict (items : list (value * value))
  | VModule (name : string).

(** Python's [==] on these values: sequences compare element by element in
    order, dictionaries compare as mappings (insertion order is ignored). *)
Fixpoint py_eq (a b : value) : bool :=
  match a, b with
  | VStr s, VStr t => String.eqb s t
  | VBool x, VBool y => Bool.eqb x y
  | VList l, VList m =>
      (fix seq_eq (l m : list value) : bool :=
         match l, m with
         | [], [] => true
         | x :: l', y :: m' => py_eq x y && seq_eq l' m'
         | _, _ => false
         end) l m
  | VDict d, VDict e =>
      Nat.eqb (length d) (length e)
      && forallb (fun kv =>
           existsb (fun kv' => py_eq (fst kv) (fst kv') && py_eq (snd kv) (snd kv')) e) d
  | VModule m, VModule n => String.eqb m n
  | _, _ => false
  end.

(** [d[k] = v] on an insertion-ordered dictionary: an existing key keeps its
    position and gets the new value, a new key goes to the end. *)
Fixpoint dict_setitem (d : list (value * value)) (k v : value) : list (value * value) :=
  match d with
  | [] => [(k, v)]
  | (k', v') :: d' =>
      if py_eq k' k then (k', v) :: d' else (k', v') :: dict_setitem d' k v
  end.

(** A dictionary display [{k1: v1, ..., kn: vn}] stores its items from left
    to right. *)
Definition dict_display (items : list (value * value)) : value :=
  VDict (fold_left (fun d kv => dict_setitem d (fst kv) (snd kv)) items []).

Definition is_str (v : value) : bool :=
  match v with VStr _ => true | _ => false end.

Definition is_bool (v : value) : bool :=
  match v with VBool _ => true | _ => false end.

(** ** [list.insert] *)

(** CPython's [ins1]: a negative index counts from the end, and an index
    outside the list is clamped to its nearest end. *)
Definition list_insert {A : Type} (l : list A) (index : Z) (x : A) : list A :=
  let n := Z.of_nat (length l) in
  let where_ := if (index <? 0)%Z then (index + n)%Z else index in
  let where_ := if (where_ <? 0)%Z then 0%Z else where_ in
  let where_ := if (n <? where_)%Z then n else where_ in
  take (Z.to_nat where_) l ++ x :: drop (Z.to_nat where_) l.

(** ** [posixpath] *)

Module posixpath.

Definition sep : ascii := "/"%char.

(** [s.split('/')] *)
Fixpoint split (s : string) : list string :=
  match s with
  | EmptyString => [EmptyString]
  | String c r =>
      if Ascii.eqb c sep then EmptyString :: split r
      else match split r with
           | h :: t => String c h :: t
           | [] => [String c EmptyString]
           end
  end.

Definition startswith (s p : string) : bool := String.prefix p s.

(** [s.endswith('/')] *)
Fixpoint endswith_sep (s : string) : bool :=
  match s with
  | EmptyString => false
  | String c EmptyString => Ascii.eqb c sep
  | String _ r => endswith_sep r
  end.

Definition isabs (s : string) : bool := startswith s "/".

(** [join(a, b)] with one trailing component. *)
Definition join (a b : string) : string :=
  if startswith b "/" then b
  else if String.eqb a "" || endswith_sep a then a +:+ b
  else a +:+ "/" +:+ b.

(** Truth value of a list: non-empty. *)
Definition truthy {A : Type} (l : list A) : bool :=
  match l with [] => false | _ => true end.

(** One iteration of the loop of [normpath] over the components. *)
Definition normpath_step (initial_slashes : nat) (new_comps : list string)
    (comp : string) : list string :=
  if String.eqb comp "" || String.eqb comp "." then new_comps
  else if negb (String.eqb comp "..")
          || (Nat.eqb initial_slashes 0 && negb (truthy new_comps))
          || (truthy new_comps && String.eqb (List.last new_comps "") "..")
  then new_comps ++ [comp]
  else if truthy new_comps then removelast new_comps
  else new_comps.

Definition normpath (path : string) : string :=
  if String.eqb path "" then "."
  else
    let initial_slashes :=
      if startswith path "/" then
        if startswith path "//" && negb (startswith path "///") then 2 else 1
      else 0 in
    let comps := fold_left (normpath_step initial_slashes) (split path) [] in
    let path := String.concat "/" comps in
    let path := String.concat "" (replicate initial_slashes "/") +:+ path in
    if String.eqb path "" then "." else path.

(** [abspath(path)] in a process whose working directory is [cwd]. *)
Definition abspath (cwd path : string) : string :=
  normpath (if isabs path then path else join cwd path).

End posixpath.

(** ** Canonical directory paths and the directory tree

    [os.getcwd()] returns a canonical absolute path: a slash followed by
    directory names separated by single slashes, none of them empty, [.]
    or [..]. *)

Fixpoint slash_free (s : string) : bool :=
  match s with
  | EmptyString => true
  | String c r => negb (Ascii.eqb c posixpath.sep) && slash_free r
  end.

Definition is_name (c : string) : bool :=
  negb (String.eqb c "") && negb (String.eqb c ".") && negb (String.eqb c "..")
  && slash_free c.

Definition canonical (comps : list string) : Prop :=
  Forall (fun c => is_name c = true) comps.

Definition path_of (comps : list string) : string :=
  "/" +:+ String.concat "/" comps.

(** The parent of the directory [/c1/.../cn] is [/c1/.../c(n-1)]; the root
    is its own parent. *)
Definition parent (comps : list string) : list string := removelast comps.

(** A file system, as far as directories go. *)
Inductive dir : Type :=
  | Dir (entries : list (string * dir)).

Definition child (d : dir) (name : string) : option dir :=
  match d with
  | Dir entries =>
      snd <$> List.find (fun e => String.eqb (fst e) name) entries
  end.

(** Path resolution from the root: [stack] holds the ancestors of [cur],
    nearest first; empty components and [.] stay, [..] goes up (the root is
    its own parent), a name goes down if that directory exists. *)
Fixpoint resolve (stack : list dir) (cur : dir) (comps : list string) : option dir :=
  match comps with
  | [] => Some cur
  | c :: rest =>
      if String.eqb c "" || String.eqb c "." then resolve stack cur rest
      else if String.eqb c ".." then
        match stack with
        | [] => resolve [] cur rest
        | up :: stack' => resolve stack' up rest
        end
      else
        match child cur c with
        | Some d => resolve (cur :: stack) d rest
        | None => None
        end
  end.

(** [os.path.isdir] on an absolute path. *)
Definition isdir (root : dir) (p : string) : bool :=
  posixpath.isabs p && bool_decide (is_Some (resolve [] root (posixpath.split p))).

(** ** The interpreter state and the evaluation monad *)

(** What the module can observe of the process that evaluates it.
    [cwd] is the result of [os.getcwd()], [conf_dir] the directory that
    holds [conf.py], [root] the directory tree of the machine. *)
Record env : Type := Env {
  cwd : string;
  conf_dir : string;
  root : dir;
}.

(** Every write is logged when it happens. *)
Inductive write : Type :=
  | WImport (name : string)
  | WAssign (name : string) (v : value)
  | WSysPathInsert (index : Z) (item : string).

(** What the module can write: its own namespace and the interpreter's
    [sys.path] list, shared by the whole process. *)
Record state : Type := State {
  globals : gmap string value;
  sys_path : list string;
  writes : list write;
}.

Definition M (A : Type) : Type := env → state → A * state.

#[global] Instance M_ret : MRet M := λ A a _ st, (a, st).

#[global] Instance M_bind : MBind M := λ A B f m e st,
  let (a, st') := m e st in f a e st'.

Definition exec {A : Type} (m : M A) (e : env) (st : state) : state :=
  snd (m e st).

(** [import name]: both modules are built in or already loaded at start-up,
    so the statement only binds the name. *)
Definition import_ (name : string) : M unit := λ _ st,
  (tt, {| globals := <[name := VModule name]> (globals st);
          sys_path := sys_path st;
          writes := writes st ++ [WImport name] |}).

(** [name = v] at module level. *)
Definition assign (name : string) (v : value) : M unit := λ _ st,
  (tt, {| globals := <[name := v]> (globals st);
          sys_path := sys_path st;
          writes := writes st ++ [WAssign name v] |}).

Definition os_getcwd : M string := λ e st, (cwd e, st).

(** [os.path.abspath(path)] *)
Definition os_path_abspath (path : string) : M string :=
  wd ← os_getcwd; mret (posixpath.abspath wd path).

(** [sys.path.insert(index, item)]: the list object is changed in place. *)
Definition sys_path_insert (index : Z) (item : string) : M unit := λ _ st,
  (tt, {| globals := globals st;
          sys_path := list_insert (sys_path st) index item;
          writes := writes st ++ [WSysPathInsert index item] |}).

(** ** docs/conf.py *)

Definition project : value := VStr "gpio-manager".
Definition copyright : value := VStr "2024, Rylan Meilutis".
Definition author : value := VStr "Rylan Meilutis".
Definition release : value := VStr "2.1.14".

Definition extensions : value := VList [VStr "sphinx.ext.autodoc"].

Definition templates_path : value := VList [VStr "_templates"].
Definition exclude_patterns : value :=
  VList [VStr "_build"; VStr "Thumbs.db"; VStr ".DS_Store"].

Definition html_theme : value := VStr "furo".
Definition html_theme_options : value :=
  dict_display [(VStr "sidebar_hide_name", VBool false);
                (VStr "navigation_with_keys", VBool true)].
Definition html_title : value := VStr "GPIO Manager Documentation".
Definition html_static_path : value := VList [VStr "_static"].

Definition conf : M unit :=
  import_ "sys" ;;
  import_ "os" ;;
  p ← os_path_abspath ".." ;
  sys_path_insert 0 p ;;
  assign "project" project ;;
  assign "copyright" copyright ;;
  assign "author" author ;;
  assign "release" release ;;
  assign "extensions" extensions ;;
  assign "templates_path" templates_path ;;
  assign "exclude_patterns" exclude_patterns ;;
  assign "html_theme" html_theme ;;
  assign "html_theme_options" html_theme_options ;;
  assign "html_title" html_title ;;
  assign "html_static_path" html_static_path.

(** The writes of one evaluation: the log without what was there before. *)
Definition conf_writes (e : env) (st : state) : list write :=
  drop (length (writes st)) (writes (exec conf e st)).

(** The namespace and the log that one evaluation produces, in closed form. *)
Definition conf_globals (g : gmap string value) : gmap string value :=
  <["html_static_path" := html_static_path]>
  (<["html_title" := html_title]>
  (<["html_theme_options" := html_theme_options]>
  (<["html_theme" := html_theme]>
  (<["exclude_patterns" := exclude_patterns]>
  (<["templates_path" := templates_path]>
  (<["extensions" := extensions]>
  (<["release" := release]>
  (<["author" := author]>
  (<["copyright" := copyright]>
  (<["project" := project]>
  (<["os" := VModule "os"]>
  (<["sys" := VModule "sys"]> g)))))))))))).

Definition conf_log (p : string) : list write :=
  [WImport "sys"; WImport "os"; WSysPathInsert 0 p;
   WAssign "project" project; WAssign "copyright" copyright;
   WAssign "author" author; WAssign "release" release;
   WAssign "extensions" extensions; WAssign "templates_path" templates_path;
   WAssign "exclude_patterns" exclude_patterns; WAssign "html_theme" html_theme;
   WAssign "html_theme_options" html_theme_options;
   WAssign "html_title" html_title; WAssign "html_static_path" html_static_path].

(** ** Vocabulary of the specification *)

(** The configuration fields the specification names. *)
Definition config_fields : list string :=
  ["project"; "copyright"; "author"; "release"; "extensions";
   "templates_path"; "exclude_patterns"; "html_theme"; "html_theme_options";
   "html_title"; "html_static_path"].

Definition string_fields : list string :=
  ["project"; "copyright"; "author"; "release"; "html_theme"; "html_title"].

Definition list_fields : list string :=
  ["extensions"; "templates_path"; "exclude_patterns"; "html_static_path"].

Definition nonempty_str (g : gmap string value) (f : string) : Prop :=
  ∃ s, g !! f = Some (VStr s) ∧ s ≠ "".

Definition nonempty_list (g : gmap string value) (f : string) : Prop :=
  ∃ l, g !! f = Some (VList l) ∧ l ≠ [].

(** A collection of strings without duplicates whose identity does not
    depend on the order of its elements. *)
Definition unordered_set_of_strings (v : value) : Prop :=
  ∃ l, v = VList l
       ∧ Forall (fun x => is_str x = true) l
       ∧ NoDup l
       ∧ ∀ l', Permutation l l' → py_eq v (VList l') = true.

(** An ordered sequence of strings without duplicates. *)
Definition nodup_list_of_strings (v : value) : Prop :=
  ∃ l, v = VList l ∧ Forall (fun x => is_str x = true) l ∧ NoDup l.

(** A mapping from string keys to booleans. *)
Definition str_bool_mapping (v : value) : Prop :=
  ∃ d, v = VDict d
       ∧ Forall (fun kv => is_str (fst kv) = true ∧ is_bool (snd kv) = true) d.

(** The names of a log that are bound, in order, and the writes that are
    not the binding of a name. *)
Definition bound_name (w : write) : option string :=
  match w with
  | WImport n => Some n
  | WAssign n _ => Some n
  | WSysPathInsert _ _ => None
  end.

Definition bound_names (ws : list write) : list string :=
  omap bound_name ws.

Definition assigns (f : string) (w : write) : bool :=
  match w with
  | WAssign n _ => String.eqb n f
  | _ => false
  end.

Definition is_mutation (w : write) : bool :=
  match w with
  | WSysPathInsert _ _ => true
  | _ => false
  end.


Definition assigned_name (w : write) : option string :=
  match w with
  | WAssign n _ => Some n
  | _ => None
  end.

Definition assigned_names (ws : list write) : list string :=
  omap assigned_name ws.

(** ** Sample processes

    A build started in the [docs] directory of a checkout, a build started
    elsewhere on the same machine, and an interpreter state with one
    search-path entry. *)

Definition machine : dir :=
  Dir [("home", Dir [("pi", Dir [("gpio_manager",
         Dir [("docs", Dir []); ("src", Dir [])])])]);
       ("tmp", Dir [])].

Definition docs_env : env :=
  {| cwd := "/home/pi/gpio_manager/docs";
     conf_dir := "/home/pi/gpio_manager/docs";
     root := machine |}.

Definition tmp_env : env :=
  {| cwd := "/tmp";
     conf_dir := "/home/pi/gpio_manager/docs";
     root := machine |}.

Definition start_state : state :=
  {| globals := ∅; sys_path := ["/usr/lib/python3"]; writes := [] |}.

(** ** Repeated evaluation and normal forms *)

(** The module evaluated [n] times in the same process, each time on the
    state the previous evaluation left. *)
Definition eval_times (n : nat) (e : env) (st : state) : state :=
  Nat.iter n (exec conf e) st.

(** A normalised absolute path: one or two leading slashes followed by
    directory names separated by single slashes. *)
Definition normalized (p : string) : Prop :=
  ∃ k comps, (k = 1 ∨ k = 2) ∧ canonical comps
             ∧ p = String.concat "" (replicate k "/") +:+ String.concat "/" comps.

(** ** What one evaluation does to the state *)

Example conf_on_docs_dir :
  sys_path (exec conf docs_env start_state)
  = ["/home/pi/gpio_manager"; "/usr/lib/python3"].
Proof. vm_compute. reflexivity. Qed.

Example conf_on_tmp_dir :
  sys_path (exec conf tmp_env start_state) = ["/"; "/usr/lib/python3"].
Proof. vm_compute. reflexivity. Qed.

Lemma list_insert_front {A : Type} (l : list A) (x : A) :
  list_insert l 0 x = x :: l.
Proof.
  unfold list_insert. cbn [Z.ltb Z.compare].
  destruct (Z.ltb_spec (Z.of_nat (length l)) 0) as [Hn | _]; [lia |].
  reflexivity.
Qed.

Lemma globals_conf e st : globals (exec conf e st) = conf_globals (globals st).
Proof. reflexivity. Qed.

Lemma sys_path_conf e st :
  sys_path (exec conf e st) = posixpath.abspath (cwd e) ".." :: sys_path st.
Proof.
  change (sys_path (exec conf e st))
    with (list_insert (sys_path st) 0 (posixpath.abspath (cwd e) "..")).
  apply list_insert_front.
Qed.

Lemma writes_conf e st :
  writes (exec conf e st) = writes st ++ conf_log (posixpath.abspath (cwd e) "..").
Proof.
  change (writes (exec conf e st))
    with (foldl (λ l w, l ++ [w]) (writes st)
            (conf_log (posixpath.abspath (cwd e) ".."))).
  unfold conf_log. cbn [foldl]. rewrite <- !app_assoc. reflexivity.
Qed.

Lemma conf_writes_eq e st :
  conf_writes e st = conf_log (posixpath.abspath (cwd e) "..").
Proof.
  unfold conf_writes. rewrite writes_conf.
  rewrite drop_app_length. reflexivity.
Qed.

(** ** Splitting and joining canonical paths *)

Section paths.
Import posixpath.

Lemma string_app_assoc (a b c : string) : (a +:+ b) +:+ c = a +:+ b +:+ c.
Proof.
  induction a as [| x a IH]; [reflexivity |].
  change (String x ((a +:+ b) +:+ c) = String x (a +:+ b +:+ c)).
  f_equal. exact IH.
Qed.

Lemma is_name_inv c :
  is_name c = true → c ≠ "" ∧ c ≠ "." ∧ c ≠ ".." ∧ slash_free c = true.
Proof.
  unfold is_name. rewrite !andb_true_iff, !negb_true_iff, !String.eqb_neq.
  tauto.
Qed.

Lemma split_slash_free c : slash_free c = true → split c = [c].
Proof.
  induction c as [| x c IH]; [reflexivity |].
  cbn [split slash_free String.append].
  rewrite andb_true_iff, negb_true_iff. intros [Hx Hc].
  rewrite Hx, (IH Hc). reflexivity.
Qed.

Lemma split_app_sep c s :
  slash_free c = true → split (c +:+ String sep s) = c :: split s.
Proof.
  induction c as [| x c IH]; [reflexivity |].
  change (String x c +:+ String sep s) with (String x (c +:+ String sep s)).
  cbn [split slash_free].
  rewrite andb_true_iff, negb_true_iff. intros [Hx Hc].
  rewrite Hx, (IH Hc). reflexivity.
Qed.

Lemma concat_cons2 (s c d : string) (l : list string) :
  String.concat s (c :: d :: l) = c +:+ s +:+ String.concat s (d :: l).
Proof. reflexivity. Qed.

Lemma split_concat_sep comps s :
  canonical comps → comps ≠ [] →
  split (String.concat "/" comps +:+ String sep s) = comps ++ split s.
Proof.
  intros Hc. induction Hc as [| c comps Hn Hc IH]; [done |]. intros _.
  apply is_name_inv in Hn as (_ & _ & _ & Hsf).
  destruct comps as [| d comps].
  - cbn [String.concat app]. by apply split_app_sep.
  - rewrite concat_cons2, !string_app_assoc.
    change ("/" +:+ String.concat "/" (d :: comps) +:+ String sep s)
      with (String sep (String.concat "/" (d :: comps) +:+ String sep s)).
    rewrite (split_app_sep _ _ Hsf), IH by done. reflexivity.
Qed.

Lemma concat_snoc (s d : string) (l : list string) (c : string) :
  String.concat s ((d :: l) ++ [c]) = String.concat s (d :: l) +:+ s +:+ c.
Proof.
  revert d. induction l as [| d' l IH]; intros d; [reflexivity |].
  change (String.concat s ((d :: d' :: l) ++ [c]))
    with (d +:+ s +:+ String.concat s ((d' :: l) ++ [c])).
  rewrite IH, concat_cons2, !string_app_assoc. reflexivity.
Qed.

Lemma split_path_of comps :
  canonical comps → comps ≠ [] → split (path_of comps) = "" :: comps.
Proof.
  intros Hc Hne. destruct (exists_last Hne) as (front & c & ->).
  apply Forall_app in Hc as [Hf Hl]. apply Forall_cons in Hl as [Hn _].
  apply is_name_inv in Hn as (_ & _ & _ & Hsf).
  unfold path_of.
  change (split ("/" +:+ String.concat "/" (front ++ [c])))
    with ("" :: split (String.concat "/" (front ++ [c]))).
  f_equal. destruct front as [| d front].
  - by apply split_slash_free.
  - rewrite concat_snoc.
    change ("/" +:+ c) with (String sep c).
    rewrite split_concat_sep, split_slash_free by done. reflexivity.
Qed.

Lemma normpath_step_name n acc c :
  is_name c = true → normpath_step n acc c = acc ++ [c].
Proof.
  intros (H1 & H2 & H3 & _)%is_name_inv. unfold normpath_step.
  apply String.eqb_neq in H1, H2, H3. rewrite H1, H2, H3. reflexivity.
Qed.

Lemma normpath_loop_names n comps acc :
  canonical comps → fold_left (normpath_step n) comps acc = acc ++ comps.
Proof.
  intros Hc. revert acc. induction Hc as [| c comps Hn Hc IH]; intros acc; cbn.
  - by rewrite app_nil_r.
  - rewrite (normpath_step_name _ _ _ Hn), IH, <- app_assoc. reflexivity.
Qed.

Lemma last_name comps :
  canonical comps → String.eqb (List.last comps "") ".." = false.
Proof.
  intros Hc. apply String.eqb_neq.
  induction Hc as [| c comps Hn Hc IH]; [done |].
  destruct comps as [| d comps]; [| exact IH].
  cbn. by apply is_name_inv in Hn as (_ & _ & ? & _).
Qed.

Lemma normpath_step_dotdot comps :
  canonical comps → normpath_step 1 comps ".." = parent comps.
Proof.
  intros Hc. unfold normpath_step, parent. cbn [String.eqb Ascii.eqb Bool.eqb orb negb Nat.eqb andb].
  rewrite (last_name _ Hc), andb_false_r.
  destruct comps; reflexivity.
Qed.

Lemma endswith_slash_free c : slash_free c = true → endswith_sep c = false.
Proof.
  induction c as [| x c IH]; [reflexivity |].
  cbn [slash_free endswith_sep].
  rewrite andb_true_iff, negb_true_iff. intros [Hx Hc].
  destruct c; [exact Hx | by apply IH].
Qed.

Lemma endswith_app s c : c ≠ "" → endswith_sep (s +:+ c) = endswith_sep c.
Proof.
  intros Hc. induction s as [| a s IH]; [reflexivity |].
  change (String a s +:+ c) with (String a (s +:+ c)).
  cbn [endswith_sep]. destruct (s +:+ c) eqn:E; [| exact IH].
  destruct s; [| discriminate]. by destruct Hc.
Qed.

Lemma endswith_path_of comps :
  canonical comps → comps ≠ [] → endswith_sep (path_of comps) = false.
Proof.
  intros Hc Hne. destruct (exists_last Hne) as (front & c & ->).
  apply Forall_app in Hc as [_ Hl]. apply Forall_cons in Hl as [Hn _].
  apply is_name_inv in Hn as (Hc & _ & _ & Hsf).
  unfold path_of. destruct front as [| d front].
  - change ("/" +:+ String.concat "/" ([] ++ [c])) with ("/" +:+ c).
    rewrite endswith_app by done. by apply endswith_slash_free.
  - rewrite concat_snoc, <- !string_app_assoc, endswith_app by done.
    by apply endswith_slash_free.
Qed.

Lemma concat_first_char comps :
  canonical comps → comps ≠ [] →
  ∃ x r, String.concat "/" comps = String x r ∧ Ascii.eqb x sep = false.
Proof.
  intros Hc Hne. destruct Hc as [| c comps Hn Hc]; [done |].
  apply is_name_inv in Hn as (Hne' & _ & _ & Hsf).
  destruct c as [| x c]; [done |].
  cbn [slash_free] in Hsf. apply andb_true_iff in Hsf as [Hx _].
  apply negb_true_iff in Hx.
  exists x. destruct comps; eexists; (split; [reflexivity | exact Hx]).
Qed.

(** [normpath] on a path with exactly one leading slash. *)
Lemma normpath_single_slash x r :
  Ascii.eqb x sep = false →
  normpath (String sep (String x r))
  = "/" +:+ String.concat "/" (fold_left (normpath_step 1) (split (String x r)) []).
Proof.
  intros Hx. unfold normpath. cbv zeta.
  set (p := String sep (String x r)).
  assert (H1 : String.eqb p "" = false) by reflexivity.
  assert (H2 : startswith p "/" = true) by reflexivity.
  assert (H3 : startswith p "//" = false).
  { unfold startswith, p. cbn [String.prefix].
    destruct (ascii_dec "/" sep) as [_ |]; [| done].
    destruct (ascii_dec "/" x) as [<- |]; [discriminate Hx | reflexivity]. }
  rewrite H1, H2, H3. cbn [andb].
  change (split p) with ("" :: split (String x r)).
  reflexivity.
Qed.

(** [abspath('..')] in a canonical working directory is the parent of that
    directory. *)
Lemma abspath_dotdot comps :
  canonical comps → abspath (path_of comps) ".." = path_of (parent comps).
Proof.
  intros Hc. destruct (decide (comps = [])) as [-> | Hne]; [reflexivity |].
  unfold abspath. change (isabs "..") with false. cbv iota.
  unfold join. change (startswith ".." "/") with false. cbv iota.
  change (String.eqb (path_of comps) "") with false.
  rewrite (endswith_path_of _ Hc Hne). cbn [orb].
  destruct (concat_first_char _ Hc Hne) as (x & r & Hcat & Hx).
  assert (Hsplit : split (String x (r +:+ String sep "..")) = comps ++ [".."]).
  { change (String x (r +:+ String sep "..")) with (String x r +:+ String sep "..").
    rewrite <- Hcat. by rewrite split_concat_sep. }
  unfold path_of at 1. rewrite string_app_assoc, Hcat.
  change ("/" +:+ String x r +:+ "/" +:+ "..")
    with (String sep (String x (r +:+ String sep ".."))).
  rewrite (normpath_single_slash _ _ Hx), Hsplit.
  rewrite fold_left_app, (normpath_loop_names _ _ _ Hc).
  cbn [fold_left app]. rewrite (normpath_step_dotdot _ Hc).
  reflexivity.
Qed.

End paths.

(** ** Directories that exist *)

Lemma canonical_parent comps : canonical comps → canonical (parent comps).
Proof.
  intros Hc. destruct (decide (comps = [])) as [-> | Hne]; [done |].
  destruct (exists_last Hne) as (front & c & ->).
  unfold parent. rewrite removelast_last. by apply Forall_app in Hc as [? _].
Qed.

(** A canonical path names one list of components only. *)
Lemma path_of_inj a b :
  canonical a → canonical b → path_of a = path_of b → a = b.
Proof.
  assert (Hroot : ∀ c, canonical c → c ≠ [] → path_of [] ≠ path_of c).
  { intros c Hc Hne Heq. apply (f_equal posixpath.split) in Heq.
    rewrite (split_path_of _ Hc Hne) in Heq.
    change (posixpath.split (path_of [])) with [""; ""] in Heq.
    injection Heq as <-. by apply Forall_cons in Hc as [? _]. }
  intros Ha Hb Heq.
  destruct (decide (a = [])) as [-> | Hna], (decide (b = [])) as [-> | Hnb].
  - reflexivity.
  - by destruct (Hroot b).
  - by destruct (Hroot a).
  - apply (f_equal posixpath.split) in Heq.
    rewrite !split_path_of in Heq by done. by injection Heq.
Qed.

(** Resolution goes through every prefix of the path it resolves. *)
Lemma resolve_prefix stack cur l1 l2 d :
  resolve stack cur (l1 ++ l2) = Some d → is_Some (resolve stack cur l1).
Proof.
  revert stack cur. induction l1 as [| c l1 IH]; intros stack cur; [by eauto |].
  cbn [app resolve].
  destruct (String.eqb c "" || String.eqb c "."); [by apply IH |].
  destruct (String.eqb c "..").
  - destruct stack; by apply IH.
  - destruct (child cur c); [by apply IH | done].
Qed.

Lemma isabs_path_of comps : posixpath.isabs (path_of comps) = true.
Proof.
  unfold posixpath.isabs, posixpath.startswith, path_of.
  change ("/" +:+ String.concat "/" comps)
    with (String "/" (String.concat "/" comps)).
  cbn [String.prefix]. destruct (ascii_dec "/" "/"); [| done].
  by destruct (String.concat "/" comps).
Qed.

Lemma isdir_path_of root comps :
  canonical comps →
  isdir root (path_of comps) = bool_decide (is_Some (resolve [] root comps)).
Proof.
  intros Hc. destruct (decide (comps = [])) as [-> | Hne]; [reflexivity |].
  unfold isdir. rewrite (split_path_of _ Hc Hne).
  change (resolve [] root ("" :: comps)) with (resolve [] root comps).
  by rewrite isabs_path_of.
Qed.

Lemma isdir_parent root comps :
  canonical comps →
  isdir root (path_of comps) = true → isdir root (path_of (parent comps)) = true.
Proof.
  intros Hc. rewrite !isdir_path_of by auto using canonical_parent.
  rewrite !bool_decide_eq_true. intros [d Hd].
  destruct (decide (comps = [])) as [-> | Hne]; [by eauto |].
  destruct (exists_last Hne) as (front & c & ->).
  unfold parent. rewrite removelast_last. by eapply resolve_prefix.
Qed.

(** ** The namespace after evaluation *)

Ltac lookup_conf :=
  unfold conf_globals;
  repeat first [rewrite lookup_insert_eq | rewrite lookup_insert_ne by done].

Lemma lookup_conf_other g (n : string) :
  n ∉ ["sys"; "os"] → n ∉ config_fields → conf_globals g !! n = g !! n.
Proof.
  unfold config_fields. rewrite !not_elem_of_cons.
  intros (? & ? & _) Hn. decompose [and] Hn. by lookup_conf.
Qed.

(** ** The claims *)

(** C1. Evaluating the module binds every one of the eleven named
    configuration fields and prepends one entry to the module search path.
    Its assignments are the eleven fields and nothing else: any other name
    of the namespace is either left as it was or is one of the two imported
    modules [sys] and [os], which are not configuration values. *)
Theorem conf_defines_the_fields (e : env) (st : state) :
  let st' := exec conf e st in
  Forall (λ f, is_Some (globals st' !! f)) config_fields
  ∧ assigned_names (conf_writes e st) = config_fields
  ∧ sys_path st' = posixpath.abspath (cwd e) ".." :: sys_path st
  ∧ ∀ n : string,
      n ∈ config_fields
      ∨ globals st' !! n = globals st !! n
      ∨ (n ∈ ["sys"; "os"] ∧ globals st' !! n = Some (VModule n)).
Proof.
  cbv zeta. rewrite globals_conf, conf_writes_eq, sys_path_conf.
  split; [| split; [reflexivity | split; [reflexivity |]]].
  - unfold config_fields. repeat constructor; lookup_conf; by eauto.
  - intros n.
    destruct (decide (n ∈ config_fields)) as [| Hn]; [by left |]. right.
    destruct (decide (n ∈ ["sys"; "os"])) as [Hi | Hi].
    + right. split; [exact Hi |].
      apply elem_of_cons in Hi as [-> | Hi]; [by lookup_conf |].
      apply elem_of_cons in Hi as [-> | Hi]; [by lookup_conf |].
      by apply elem_of_nil in Hi.
    + left. by apply lookup_conf_other.
Qed.

(** C2. After evaluation [project], [copyright], [author], [release],
    [html_theme] and [html_title] are bound to non-empty strings, and
    [extensions], [templates_path], [exclude_patterns] and
    [html_static_path] to non-empty lists. *)
Theorem conf_fields_nonempty (e : env) (st : state) :
  let g := globals (exec conf e st) in
  Forall (nonempty_str g) string_fields ∧ Forall (nonempty_list g) list_fields.
Proof.
  cbv zeta. rewrite globals_conf.
  split; repeat constructor; eexists; (split; [by lookup_conf | done]).
Qed.

(** C3. The path insertion adds the absolute path of the parent directory:
    when the module is evaluated in the canonical working directory
    [/c1/.../cn] (the [docs] directory of the project when the
    documentation is built), the entry put on the search path is
    [/c1/.../c(n-1)], and it is an absolute path. *)
Theorem conf_inserts_parent_directory (e : env) (st : state) (comps : list string) :
  canonical comps →
  cwd e = path_of comps →
  head (sys_path (exec conf e st)) = Some (path_of (parent comps))
  ∧ posixpath.isabs (path_of (parent comps)) = true.
Proof.
  intros Hc Hcwd. rewrite sys_path_conf, Hcwd, (abspath_dotdot _ Hc).
  split; [reflexivity | apply isabs_path_of].
Qed.

Lemma conf_inserts_parent_directory_witness :
  head (sys_path (exec conf docs_env start_state)) = Some "/home/pi/gpio_manager"
  ∧ posixpath.isabs "/home/pi/gpio_manager" = true.
Proof.
  apply (conf_inserts_parent_directory docs_env start_state
           ["home"; "pi"; "gpio_manager"; "docs"]).
  - repeat constructor.
  - reflexivity.
Defined.

(** C4. Evaluation changes the search path by prepending exactly one entry
    at index 0; the former entries follow it unchanged and in order.  The
    entry is the absolute path of [..] resolved against the working
    directory of the process: in the canonical working directory
    [/c1/.../cn] it is [/c1/.../c(n-1)].  It is not resolved against the
    location of the configuration file: the search path is the same wherever
    that file is, and whenever the directory of the configuration file has
    another parent than the working directory, the entry is not that
    parent. *)
Theorem conf_prepends_cwd_parent (e : env) (st : state) (comps : list string) :
  canonical comps →
  cwd e = path_of comps →
  sys_path (exec conf e st) = path_of (parent comps) :: sys_path st
  ∧ posixpath.isabs (path_of (parent comps)) = true
  ∧ (∀ e' st',
       sys_path (exec conf e' st')
       = posixpath.abspath (cwd e') ".." :: sys_path st')
  ∧ (∀ wd d d' r r' st',
       sys_path (exec conf (Env wd d r) st')
       = sys_path (exec conf (Env wd d' r') st'))
  ∧ (∀ dcomps,
       canonical dcomps → conf_dir e = path_of dcomps →
       parent dcomps ≠ parent comps →
       head (sys_path (exec conf e st)) ≠ Some (path_of (parent dcomps)))
  ∧ ∃ e' st',
      head (sys_path (exec conf e' st'))
      ≠ Some (posixpath.abspath (conf_dir e') "..").
Proof.
  intros Hc Hcwd. rewrite sys_path_conf, Hcwd, (abspath_dotdot _ Hc).
  split; [reflexivity |]. split; [apply isabs_path_of |].
  split; [exact sys_path_conf |]. split; [| split].
  - intros. by rewrite !sys_path_conf.
  - intros dcomps Hd _ Hne Heq%(inj Some). apply Hne. symmetry.
    by apply path_of_inj in Heq; [| apply canonical_parent ..].
  - exists tmp_env, start_state. vm_compute. discriminate.
Qed.

Lemma conf_prepends_cwd_parent_witness :
  sys_path (exec conf tmp_env start_state) = ["/"; "/usr/lib/python3"]
  ∧ head (sys_path (exec conf tmp_env start_state)) ≠ Some "/home/pi/gpio_manager".
Proof.
  destruct (conf_prepends_cwd_parent tmp_env start_state ["tmp"])
    as (Hpath & _ & _ & _ & Hconf & _).
  - repeat constructor.
  - reflexivity.
  - split; [exact Hpath |].
    apply (Hconf ["home"; "pi"; "gpio_manager"; "docs"]).
    + repeat constructor.
    + reflexivity.
    + discriminate.
Defined.

(** C5, as the specification words it, fails: the value bound to
    [exclude_patterns] is a list, and a list with the same elements in
    another order is a different value. *)
Lemma exclude_patterns_not_unordered :
  ¬ ∃ v, globals (exec conf docs_env start_state) !! "exclude_patterns" = Some v
         ∧ unordered_set_of_strings v.
Proof.
  intros (v & Hv & l & -> & _ & _ & Hperm).
  rewrite globals_conf in Hv. revert Hv. lookup_conf. intros [= <-].
  specialize (Hperm [VStr "Thumbs.db"; VStr "_build"; VStr ".DS_Store"]
                (perm_swap _ _ _)).
  vm_compute in Hperm. discriminate.
Qed.

(** C5, amended. The exclusion-pattern field is a list, an ordered sequence,
    of the three glob-pattern strings [_build], [Thumbs.db] and [.DS_Store],
    and no pattern occurs twice in it. *)
Theorem exclude_patterns_nodup_list (e : env) (st : state) :
  ∃ v, globals (exec conf e st) !! "exclude_patterns" = Some v
       ∧ v = VList [VStr "_build"; VStr "Thumbs.db"; VStr ".DS_Store"]
       ∧ nodup_list_of_strings v.
Proof.
  eexists. rewrite globals_conf. split; [by lookup_conf |].
  split; [reflexivity |]. eexists. split; [reflexivity |].
  split; [by repeat constructor |].
  repeat (apply NoDup_cons; split); [| | | apply NoDup_nil_2];
    rewrite ?not_elem_of_cons, ?elem_of_nil; by intuition.
Qed.

(** C6. The configuration record is not mutated after it is built: in the
    writes of one evaluation every configuration field is assigned exactly
    once, no name is bound twice, the only write that changes an existing
    object is the single search-path insertion, and at the end every
    assigned name still holds the value of its assignment. *)
Theorem conf_fields_assigned_once (e : env) (st : state) :
  let ws := conf_writes e st in
  let st' := exec conf e st in
  writes st' = writes st ++ ws
  ∧ Forall (λ f, length (List.filter (assigns f) ws) = 1) config_fields
  ∧ NoDup (bound_names ws)
  ∧ List.filter is_mutation ws = [WSysPathInsert 0 (posixpath.abspath (cwd e) "..")]
  ∧ Forall (λ w, match w with
                 | WAssign f v => globals st' !! f = Some v
                 | _ => True
                 end) ws.
Proof.
  cbv zeta. rewrite conf_writes_eq, writes_conf, globals_conf.
  split; [reflexivity |]. split; [by repeat constructor |].
  split; [| split; [reflexivity |]].
  - apply (bool_decide_unpack _). vm_compute. exact I.
  - unfold conf_log. repeat constructor; by lookup_conf.
Qed.

(** C7. The theme-options field is a mapping whose keys are strings, the
    option names, and whose values are booleans. *)
Theorem html_theme_options_str_bool (e : env) (st : state) :
  ∃ v, globals (exec conf e st) !! "html_theme_options" = Some v
       ∧ str_bool_mapping v.
Proof.
  eexists. rewrite globals_conf. split; [by lookup_conf |].
  eexists. split; [reflexivity |]. by repeat constructor.
Qed.

(** C8. The enabled-extensions field is a list, an ordered sequence, every
    element of which is a string. *)
Theorem extensions_list_of_strings (e : env) (st : state) :
  ∃ l, globals (exec conf e st) !! "extensions" = Some (VList l)
       ∧ Forall (λ x, is_str x = true) l.
Proof.
  eexists. rewrite globals_conf. split; [by lookup_conf |].
  by repeat constructor.
Qed.

(** C9. The configuration fields do not depend on the evaluation: any two
    evaluations of the module, in any processes and from any states, bind
    every configuration field, and bind it to the same value. *)
Theorem conf_fields_deterministic (e1 e2 : env) (st1 st2 : state) :
  Forall (λ f, is_Some (globals (exec conf e1 st1) !! f)
               ∧ globals (exec conf e1 st1) !! f = globals (exec conf e2 st2) !! f)
         config_fields.
Proof.
  rewrite !globals_conf. unfold config_fields.
  repeat (apply Forall_cons; split; [split; lookup_conf; by eauto |]).
  apply Forall_nil_2.
Qed.

(** C10. The search-path insertion resolves to an existing parent
    directory: when the working directory of the process is the canonical
    path [/c1/.../cn] of a directory that exists, the entry the module puts
    on the search path is its parent [/c1/.../c(n-1)], and that directory
    exists. *)
Theorem conf_inserted_directory_exists (e : env) (st : state) (comps : list string) :
  canonical comps →
  cwd e = path_of comps →
  isdir (root e) (cwd e) = true →
  head (sys_path (exec conf e st)) = Some (path_of (parent comps))
  ∧ isdir (root e) (path_of (parent comps)) = true.
Proof.
  intros Hc Hcwd Hdir.
  rewrite sys_path_conf, Hcwd, (abspath_dotdot _ Hc).
  split; [reflexivity |]. apply isdir_parent; [exact Hc |].
  by rewrite <- Hcwd.
Qed.

Lemma conf_inserted_directory_exists_witness :
  head (sys_path (exec conf docs_env start_state)) = Some "/home/pi/gpio_manager"
  ∧ isdir machine "/home/pi/gpio_manager" = true.
Proof.
  apply (conf_inserted_directory_exists docs_env start_state
           ["home"; "pi"; "gpio_manager"; "docs"]).
  - repeat constructor.
  - reflexivity.
  - vm_compute. reflexivity.
Defined.

(** ** Beyond the claims: re-evaluation, overlay and normal forms *)

Lemma conf_globals_union (g : gmap string value) :
  conf_globals g = conf_globals ∅ ∪ g.
Proof.
  unfold conf_globals. rewrite <- !insert_union_l, (left_id_L ∅ (∪)).
  reflexivity.
Qed.

(** X1. The module does not look at what is already on the search path:
    evaluating it [n] times in one process puts [n] copies of the same entry
    in front of the entries that were there. *)
Theorem eval_times_duplicates_entry (n : nat) (e : env) (st : state) :
  sys_path (eval_times n e st)
  = replicate n (posixpath.abspath (cwd e) "..") ++ sys_path st.
Proof.
  unfold eval_times. induction n as [| n IH]; [reflexivity |].
  rewrite Nat.iter_succ, sys_path_conf, IH. reflexivity.
Qed.

(** X2. The namespace after evaluation is the module's own bindings laid
    over the namespace it started from: a name the module binds gets the
    module's value whatever it held before, every other name keeps its
    binding. *)
Theorem conf_overlays_namespace (e e0 : env) (st : state) (p0 : list string)
    (w0 : list write) :
  globals (exec conf e st)
  = globals (exec conf e0 (State ∅ p0 w0)) ∪ globals st.
Proof. rewrite !globals_conf. apply conf_globals_union. Qed.

(** X3. Re-evaluation leaves the namespace as it is: a second evaluation,
    in the same or in another process, changes no binding. *)
Theorem conf_namespace_idempotent (e1 e2 : env) (st : state) :
  globals (exec conf e2 (exec conf e1 st)) = globals (exec conf e1 st).
Proof.
  rewrite !globals_conf, (conf_globals_union (conf_globals _)).
  rewrite (conf_globals_union (globals st)).
  by rewrite (assoc_L (∪)), (idemp_L (∪)).
Qed.

Section normal_forms.
Import posixpath.

Lemma split_all_slash_free s : Forall (λ c, slash_free c = true) (split s).
Proof.
  induction s as [| x s IH]; [by repeat constructor |].
  cbn [split]. destruct (Ascii.eqb x sep) eqn:Hx.
  - by constructor.
  - destruct (split s) as [| h t]; [by repeat constructor; cbn; rewrite Hx |].
    apply Forall_cons in IH as [Hh Ht]. constructor; [| exact Ht].
    cbn [slash_free]. by rewrite Hx, Hh.
Qed.

(** The loop of [normpath] on an absolute path keeps only directory names. *)
Lemma normpath_step_canonical k acc c :
  k ≠ 0 → canonical acc → slash_free c = true →
  canonical (normpath_step k acc c).
Proof.
  intros Hk Hacc Hc. unfold normpath_step.
  destruct (String.eqb_spec c "") as [| H1]; [done |].
  destruct (String.eqb_spec c ".") as [| H2]; [done |]. cbn [orb].
  destruct (String.eqb_spec c "..") as [-> | H3]; cbn [negb orb].
  - destruct k; [done |]. cbn [Nat.eqb andb orb].
    rewrite (last_name _ Hacc), andb_false_r.
    destruct (truthy acc); [by apply canonical_parent | done].
  - apply Forall_app. split; [done |]. constructor; [| done].
    unfold is_name. apply String.eqb_neq in H1, H2, H3.
    by rewrite H1, H2, H3, Hc.
Qed.

Lemma normpath_loop_canonical k l acc :
  k ≠ 0 → canonical acc → Forall (λ c, slash_free c = true) l →
  canonical (fold_left (normpath_step k) l acc).
Proof.
  intros Hk Hacc Hl. revert acc Hacc.
  induction Hl as [| c l Hc Hl IH]; intros acc Hacc; [done |].
  cbn [fold_left]. apply IH. by apply normpath_step_canonical.
Qed.

Lemma isabs_inv p : isabs p = true → ∃ r, p = String sep r.
Proof.
  unfold isabs, startswith. destruct p as [| x r]; [done |].
  cbn [String.prefix]. destruct (ascii_dec "/" x) as [<- |]; [by eauto | done].
Qed.

Lemma normpath_abs_normalized p : isabs p = true → normalized (normpath p).
Proof.
  intros Hp. destruct (isabs_inv _ Hp) as [r ->].
  unfold normpath. change (String.eqb (String sep r) "") with false.
  cbv iota zeta. unfold isabs in Hp. rewrite Hp.
  destruct (startswith (String sep r) "//" && negb (startswith (String sep r) "///")).
  - exists 2, (fold_left (normpath_step 2) (split (String sep r)) []).
    split; [by right |]. split; [| reflexivity].
    apply normpath_loop_canonical; [done | by constructor | apply split_all_slash_free].
  - exists 1, (fold_left (normpath_step 1) (split (String sep r)) []).
    split; [by left |]. split; [| reflexivity].
    apply normpath_loop_canonical; [done | by constructor | apply split_all_slash_free].
Qed.

Lemma isabs_sep r : isabs (String sep r) = true.
Proof.
  unfold isabs, startswith. cbn [String.prefix].
  destruct (ascii_dec "/" sep); [by destruct r | done].
Qed.

Lemma isabs_join a b : isabs a = true → isabs (join a b) = true.
Proof.
  intros Ha. unfold join. destruct (startswith b "/") eqn:Hb; [exact Hb |].
  destruct (isabs_inv _ Ha) as [r ->].
  destruct (String.eqb (String sep r) "" || endswith_sep (String sep r)).
  - change (String sep r +:+ b) with (String sep (r +:+ b)). apply isabs_sep.
  - change (String sep r +:+ "/" +:+ b) with (String sep (r +:+ "/" +:+ b)).
    apply isabs_sep.
Qed.

Lemma abspath_normalized wd path :
  isabs wd = true → normalized (abspath wd path).
Proof.
  intros Hwd. unfold abspath. apply normpath_abs_normalized.
  destruct (isabs path) eqn:Hp; [exact Hp | by apply isabs_join].
Qed.

Lemma normalized_isabs p : normalized p → isabs p = true.
Proof. intros (k & comps & [-> | ->] & _ & ->); apply isabs_sep. Qed.

End normal_forms.

(** X4. Whatever absolute path the working directory is given as, with
    repeated slashes, [.] or [..] components or a trailing slash, the entry
    put on the search path is an absolute path in normal form: one or two
    leading slashes and then plain directory names. *)
Theorem conf_entry_normalized (e : env) (st : state) :
  posixpath.isabs (cwd e) = true →
  ∃ p, head (sys_path (exec conf e st)) = Some p
       ∧ normalized p ∧ posixpath.isabs p = true.
Proof.
  intros Hwd. eexists. rewrite sys_path_conf. split; [reflexivity |].
  pose proof (abspath_normalized (cwd e) ".." Hwd) as Hn.
  split; [exact Hn | by apply normalized_isabs].
Qed.

Lemma conf_entry_normalized_witness :
  ∃ p, head (sys_path (exec conf (Env "/srv//www/./site/../docs/" "/srv/www/docs" machine)
                         start_state)) = Some p
       ∧ normalized p ∧ posixpath.isabs p = true.
Proof.
  apply (conf_entry_normalized
           (Env "/srv//www/./site/../docs/" "/srv/www/docs" machine) start_state).
  reflexivity.
Defined.

(** X5. The working directory itself is put on the search path only at the
    root of the file system, which is its own parent; in every other
    canonical working directory the entry differs from it. *)
Theorem conf_entry_is_cwd_only_at_root (e : env) (st : state) (comps : list string) :
  canonical comps →
  cwd e = path_of comps →
  head (sys_path (exec conf e st)) = Some (cwd e) ↔ comps = [].
Proof.
  intros Hc Hcwd. rewrite sys_path_conf, Hcwd, (abspath_dotdot _ Hc).
  split.
  - intros Heq%(inj Some).
    apply path_of_inj in Heq; [| by apply canonical_parent | done].
    destruct (decide (comps = [])) as [| Hne]; [done |].
    destruct (exists_last Hne) as (front & c & ->).
    unfold parent in Heq. rewrite removelast_last in Heq.
    apply (f_equal length) in Heq. rewrite length_app in Heq. cbn in Heq. lia.
  - by intros ->.
Qed.

Lemma conf_entry_is_cwd_only_at_root_witness :
  head (sys_path (exec conf (Env "/" "/srv/docs" machine) start_state)) = Some "/"
  ↔ @nil string = [].
Proof.
  apply (conf_entry_is_cwd_only_at_root (Env "/" "/srv/docs" machine) start_state []).
  - constructor.
  - reflexivity.
Defined.

(** X6. Two builds put the same entry on the search path exactly when their
    working directories have the same parent: sibling directories share the
    entry, and directories with different parents never do. *)
Theorem conf_entry_same_iff_same_parent (e1 e2 : env) (st1 st2 : state)
    (c1 c2 : list string) :
  canonical c1 → canonical c2 →
  cwd e1 = path_of c1 → cwd e2 = path_of c2 →
  head (sys_path (exec conf e1 st1)) = head (sys_path (exec conf e2 st2))
  ↔ parent c1 = parent c2.
Proof.
  intros H1 H2 Hw1 Hw2.
  rewrite !sys_path_conf, Hw1, Hw2, !abspath_dotdot by done.
  split.
  - intros Heq%(inj Some).
    by apply path_of_inj in Heq; [| apply canonical_parent ..].
  - by intros ->.
Qed.

Lemma conf_entry_same_iff_same_parent_witness :
  head (sys_path (exec conf docs_env start_state))
  = head (sys_path (exec conf (Env "/home/pi/gpio_manager/src" "" machine) start_state))
  ↔ parent ["home"; "pi"; "gpio_manager"; "docs"]
    = parent ["home"; "pi"; "gpio_manager"; "src"].
Proof.
  apply (conf_entry_same_iff_same_parent docs_env
           (Env "/home/pi/gpio_manager/src" "" machine) start_state start_state).
  - repeat constructor.
  - repeat constructor.
  - reflexivity.
  - reflexivity.
Defined.
